(** * vee-validate: the form-state engine of [useForm]

    A shallow embedding of [useForm] (packages/vee-validate): the error
    bag, the path registry, the meta aggregation, the reconciliation of a
    schema-validation run, the submission handler, single-field validation and
    the handling of a renamed field.

    JavaScript objects used as dictionaries are finite maps ([gmap]) keyed by
    the path string.  Field objects live in a store keyed by their [id]; the
    registry holds ids, so that a mutation of a field object is seen through
    every place that refers to it. *)

From stdpp Require Import gmap strings list fin_maps.

(** ** Values and the value tree *)

(** Form values.  Numbers are the integers. *)
#[warnings="-register-all"]
Inductive value :=
  | VUndefined
  | VNull
  | VBool (b : bool)
  | VNumber (n : Z)
  | VString (s : string)
  | VArray (vs : list value).

#[global] Instance value_eq_dec : EqDecision value.
Proof.
  refine (fix go (a b : value) {struct a} : Decision (a = b) :=
    match a, b with
    | VUndefined, VUndefined => left _
    | VNull, VNull => left _
    | VBool x, VBool y => cast_if (decide (x = y))
    | VNumber x, VNumber y => cast_if (decide (x = y))
    | VString x, VString y => cast_if (decide (x = y))
    | VArray xs, VArray ys => cast_if (@list_eq_dec _ go xs ys)
    | _, _ => right _
    end); congruence.
Defined.

(** JavaScript truthiness of a value (arrays are objects, hence truthy). *)
Definition truthyValue (v : value) : bool :=
  match v with
  | VUndefined | VNull => false
  | VBool b => b
  | VNumber n => negb (n =? 0)%Z
  | VString EmptyString => false
  | VString _ => true
  | VArray _ => true
  end.

Definition isArray (v : value) : bool :=
  match v with
  | VArray _ => true
  | _ => false
  end.

(** Modelled from the spec: [utils.ts] ([getFromPath], [setInPath],
    [unsetPath], [isEqual]) and [klona] are not part of the sources at hand;
    the spec treats them as primitives on the value tree.  The tree is the
    finite map from paths to the values stored under them, a path being an
    opaque key; [isEqual] is deep structural equality and [deepCopy] returns
    a structurally equal value. *)
Definition getFromPath (object : gmap string value) (path : string) : value :=
  default VUndefined (object !! path).

Definition setInPath (object : gmap string value) (path : string) (v : value)
    : gmap string value :=
  <[path := v]> object.

Definition unsetPath (object : gmap string value) (path : string)
    : gmap string value :=
  delete path object.

Definition isEqual (a b : gmap string value) : bool := bool_decide (a = b).

Definition deepCopy {A : Type} (a : A) : A := a.

(** ** Error bag *)

(** An error message as callers pass it: [string | string[] | undefined]. *)
Inductive Message :=
  | MUndefined
  | MString (s : string)
  | MArray (l : list string).

#[global] Instance Message_eq_dec : EqDecision Message.
Proof. solve_decision. Defined.

(** JavaScript truthiness of a message: [undefined] and the empty string are
    falsy, every array (the empty one too) is truthy. *)
Definition truthy (message : Message) : bool :=
  match message with
  | MUndefined => false
  | MString EmptyString => false
  | MString _ => true
  | MArray _ => true
  end.

(** [Array.isArray(message) ? message : message ? [message] : []] *)
Definition normalizeErrorItem (message : Message) : list string :=
  match message with
  | MArray l => l
  | MString EmptyString => []
  | MString s => [s]
  | MUndefined => []
  end.

(** [setFieldErrorBag(field, message)] *)
Definition setFieldErrorBag (field : string) (message : Message)
    (errorBag : gmap string (list string)) : gmap string (list string) :=
  if truthy message then <[field := normalizeErrorItem message]> errorBag
  else delete field errorBag.

(** [setErrorBag(fields)]: the bag is rebuilt by a reduce over the keys of
    [fields], starting from the empty object. *)
Definition setErrorBag (fields : gmap string Message) : gmap string (list string) :=
  map_fold (λ key message acc,
              if truthy message then <[key := normalizeErrorItem message]> acc
              else acc)
           ∅ fields.

(** The computed [errors]: the first message of every non-empty bag entry. *)
Definition firstErrors (errorBag : gmap string (list string)) : gmap string string :=
  map_fold (λ key bag acc,
              match bag with
              | m :: _ => <[key := m]> acc
              | [] => acc
              end)
           ∅ errorBag.

(** ** Path registry *)

(** A registry entry: [Field | Field[]].  Fields are referred to by id. *)
Inductive FieldEntry :=
  | Single (f : nat)
  | Group (fs : list nat).

#[global] Instance FieldEntry_eq_dec : EqDecision FieldEntry.
Proof. solve_decision. Defined.

Definition members (e : FieldEntry) : list nat :=
  match e with
  | Single f => [f]
  | Group fs => fs
  end.

Definition isFieldGroup (e : FieldEntry) : bool :=
  match e with
  | Single _ => false
  | Group _ => true
  end.

(** [fieldOrGroup.findIndex(f => f.id === field.id)] followed by
    [splice(idx, 1)]: the first occurrence is removed; [None] when there is
    none ([idx === -1]). *)
Fixpoint spliceFirst (field : nat) (fs : list nat) : option (list nat) :=
  match fs with
  | [] => None
  | f :: rest =>
      if decide (f = field) then Some rest
      else cons f <$> spliceFirst field rest
  end.

(** [insertFieldAtPath(field, fieldPath)] *)
Definition insertFieldAtPath (field : nat) (fieldPath : string)
    (fieldsByPath : gmap string FieldEntry) : gmap string FieldEntry :=
  match fieldsByPath !! fieldPath with
  | None => <[fieldPath := Single field]> fieldsByPath
  | Some (Single fieldAtPath) =>
      <[fieldPath := Group ([fieldAtPath] ++ [field])]> fieldsByPath
  | Some (Group fs) => <[fieldPath := Group (fs ++ [field])]> fieldsByPath
  end.

(** [removeFieldFromPath(field, fieldPath)] *)
Definition removeFieldFromPath (field : nat) (fieldPath : string)
    (fieldsByPath : gmap string FieldEntry) : gmap string FieldEntry :=
  match fieldsByPath !! fieldPath with
  | None => fieldsByPath
  | Some (Single fieldAtPath) =>
      if decide (field = fieldAtPath) then delete fieldPath fieldsByPath
      else fieldsByPath
  | Some (Group fs) =>
      match spliceFirst field fs with
      | None => fieldsByPath
      | Some [] => delete fieldPath fieldsByPath
      | Some fs' => <[fieldPath := Group fs']> fieldsByPath
      end
  end.

(** [fieldExists(path)] *)
Definition fieldExists (path : string) (fieldsByPath : gmap string FieldEntry) : bool :=
  bool_decide (is_Some (fieldsByPath !! path)).

(** [getFirstFieldAtPath(path)] *)
Definition getFirstFieldAtPath (path : string)
    (fieldsByPath : gmap string FieldEntry) : option nat :=
  match fieldsByPath !! path with
  | None => None
  | Some (Single f) => Some f
  | Some (Group fs) => head fs
  end.

(** ** Fields *)

(** The flags every field carries in [field.meta]. *)
Module FieldMeta.
Record t := mk {
  touched : bool;
  pending : bool;
  valid : bool;
  validated : bool;
}.
End FieldMeta.

(** A field object ([PrivateFieldContext]) as far as the form reads and
    writes it.  Its [id] is the key under which the store holds it.
    [errors] is the field's own error state, written through [setState]. *)
Module Field.
Record t := mk {
  name : string;
  type : string;
  meta : FieldMeta.t;
  errors : list string;
  uncheckedValue : value;
}.
End Field.

(** [f.meta.valid = b] *)
Definition setValid (b : bool) (f : Field.t) : Field.t :=
  let m := Field.meta f in
  Field.mk (Field.name f) (Field.type f)
    (FieldMeta.mk (FieldMeta.touched m) (FieldMeta.pending m) b (FieldMeta.validated m))
    (Field.errors f) (Field.uncheckedValue f).

(** [f.meta.validated = b] *)
Definition setValidated (b : bool) (f : Field.t) : Field.t :=
  let m := Field.meta f in
  Field.mk (Field.name f) (Field.type f)
    (FieldMeta.mk (FieldMeta.touched m) (FieldMeta.pending m) (FieldMeta.valid m) b)
    (Field.errors f) (Field.uncheckedValue f).

(** Modelled from the spec: the field's own methods are part of the field
    contract the form consumes ([useField] is not part of the sources at
    hand).  [f.setState({ errors })] replaces the field's error state and
    [f.setTouched(b)] its [touched] flag. *)
Definition setStateErrors (es : list string) (f : Field.t) : Field.t :=
  Field.mk (Field.name f) (Field.type f) (Field.meta f) es (Field.uncheckedValue f).

Definition fieldSetTouched (b : bool) (f : Field.t) : Field.t :=
  let m := Field.meta f in
  Field.mk (Field.name f) (Field.type f)
    (FieldMeta.mk b (FieldMeta.pending m) (FieldMeta.valid m) (FieldMeta.validated m))
    (Field.errors f) (Field.uncheckedValue f).

(** [applyFieldMutation(fieldOrGroup, mutation)] on the store of field
    objects. *)
Definition applyFieldMutation (fieldOrGroup : FieldEntry)
    (mutation : Field.t → Field.t) (objects : gmap nat Field.t) : gmap nat Field.t :=
  match fieldOrGroup with
  | Group fs => foldl (λ objs f, alter mutation f objs) objects fs
  | Single f => alter mutation f objects
  end.

(** ** Validation results and promises *)

Module ValidationResult.
Record t := mk {
  errors : list string;
  valid : bool;
}.
End ValidationResult.

Module FormValidationResult.
Record t := mk {
  valid : bool;
  results : gmap string ValidationResult.t;
  errors : gmap string string;
  values : option (gmap string value);
}.
End FormValidationResult.

Inductive SchemaValidationMode :=
  | silent
  | validated_only
  | force.

#[global] Instance SchemaValidationMode_eq_dec : EqDecision SchemaValidationMode.
Proof. solve_decision. Defined.

(** A settled promise: fulfilled with a value or rejected with the thrown
    error. *)
Inductive Promise (A : Type) :=
  | Resolved (a : A)
  | Rejected (err : string).
Arguments Resolved {A} a.
Arguments Rejected {A} err.

(** Calls that leave the form: the trace records them in order. *)
Inductive Effect :=
  | PreventDefault
  | StopPropagation
  | FieldValidate (f : nat)
  | Warn (msg : string).

#[global] Instance Effect_eq_dec : EqDecision Effect.
Proof. solve_decision. Defined.

(** What the form is created with and what surrounds it: the options of
    [useForm] and the outcome of the calls it makes to its collaborators.
    [validationSchema] stands for the run of the schema adapter on the current
    values ([_validateSchema]); [fieldValidate f] is what [f.validate()]
    settles to. *)
Record Env := {
  validationSchema : option (gmap string value → Promise FormValidationResult.t);
  cast : option (gmap string value → option (gmap string value));
  optsInitialValues : option (gmap string value);
  optsInitialErrors : option (gmap string Message);
  fieldValidate : nat → Promise ValidationResult.t;
}.

(** ** Form state *)

Record FormState := {
  fieldsByPath : gmap string FieldEntry;
  fieldObjects : gmap nat Field.t;
  errorBag : gmap string (list string);
  formValues : gmap string value;
  initialValues : gmap string value;
  originalInitialValues : gmap string value;
  isSubmitting : bool;
  submitCount : nat;
  RESET_LOCK : bool;
  controlledModelPaths : list string;
  trace : list Effect;
}.

Definition withFieldsByPath (x : gmap string FieldEntry) (st : FormState) : FormState :=
  {| fieldsByPath := x; fieldObjects := fieldObjects st; errorBag := errorBag st;
     formValues := formValues st; initialValues := initialValues st;
     originalInitialValues := originalInitialValues st;
     isSubmitting := isSubmitting st; submitCount := submitCount st;
     RESET_LOCK := RESET_LOCK st; controlledModelPaths := controlledModelPaths st;
     trace := trace st |}.

Definition withFieldObjects (x : gmap nat Field.t) (st : FormState) : FormState :=
  {| fieldsByPath := fieldsByPath st; fieldObjects := x; errorBag := errorBag st;
     formValues := formValues st; initialValues := initialValues st;
     originalInitialValues := originalInitialValues st;
     isSubmitting := isSubmitting st; submitCount := submitCount st;
     RESET_LOCK := RESET_LOCK st; controlledModelPaths := controlledModelPaths st;
     trace := trace st |}.

Definition withErrorBag (x : gmap string (list string)) (st : FormState) : FormState :=
  {| fieldsByPath := fieldsByPath st; fieldObjects := fieldObjects st; errorBag := x;
     formValues := formValues st; initialValues := initialValues st;
     originalInitialValues := originalInitialValues st;
     isSubmitting := isSubmitting st; submitCount := submitCount st;
     RESET_LOCK := RESET_LOCK st; controlledModelPaths := controlledModelPaths st;
     trace := trace st |}.

Definition withFormValues (x : gmap string value) (st : FormState) : FormState :=
  {| fieldsByPath := fieldsByPath st; fieldObjects := fieldObjects st;
     errorBag := errorBag st; formValues := x; initialValues := initialValues st;
     originalInitialValues := originalInitialValues st;
     isSubmitting := isSubmitting st; submitCount := submitCount st;
     RESET_LOCK := RESET_LOCK st; controlledModelPaths := controlledModelPaths st;
     trace := trace st |}.

Definition withInitialValues (x : gmap string value) (st : FormState) : FormState :=
  {| fieldsByPath := fieldsByPath st; fieldObjects := fieldObjects st;
     errorBag := errorBag st; formValues := formValues st; initialValues := x;
     originalInitialValues := originalInitialValues st;
     isSubmitting := isSubmitting st; submitCount := submitCount st;
     RESET_LOCK := RESET_LOCK st; controlledModelPaths := controlledModelPaths st;
     trace := trace st |}.

Definition withOriginalInitialValues (x : gmap string value) (st : FormState) : FormState :=
  {| fieldsByPath := fieldsByPath st; fieldObjects := fieldObjects st;
     errorBag := errorBag st; formValues := formValues st;
     initialValues := initialValues st; originalInitialValues := x;
     isSubmitting := isSubmitting st; submitCount := submitCount st;
     RESET_LOCK := RESET_LOCK st; controlledModelPaths := controlledModelPaths st;
     trace := trace st |}.

Definition withSubmitting (b : bool) (n : nat) (st : FormState) : FormState :=
  {| fieldsByPath := fieldsByPath st; fieldObjects := fieldObjects st;
     errorBag := errorBag st; formValues := formValues st;
     initialValues := initialValues st;
     originalInitialValues := originalInitialValues st;
     isSubmitting := b; submitCount := n;
     RESET_LOCK := RESET_LOCK st; controlledModelPaths := controlledModelPaths st;
     trace := trace st |}.

Definition emit (es : list Effect) (st : FormState) : FormState :=
  {| fieldsByPath := fieldsByPath st; fieldObjects := fieldObjects st;
     errorBag := errorBag st; formValues := formValues st;
     initialValues := initialValues st;
     originalInitialValues := originalInitialValues st;
     isSubmitting := isSubmitting st; submitCount := submitCount st;
     RESET_LOCK := RESET_LOCK st; controlledModelPaths := controlledModelPaths st;
     trace := trace st ++ es |}.

(** [resolveInitialValues(opts)] *)
Definition resolveInitialValues (env : Env) : gmap string value :=
  let providedValues := default ∅ (optsInitialValues env) in
  match validationSchema env, cast env with
  | Some _, Some schemaCast => deepCopy (default ∅ (schemaCast providedValues))
  | _, _ => deepCopy providedValues
  end.

(** The state [useForm(opts)] starts from: no field, the error bag seeded from
    [opts.initialErrors], the values and both initial snapshots resolved from
    [opts.initialValues]. *)
Definition useForm (env : Env) : FormState :=
  let values := resolveInitialValues env in
  {| fieldsByPath := ∅; fieldObjects := ∅;
     errorBag := match optsInitialErrors env with
                 | Some initialErrors => setErrorBag initialErrors
                 | None => ∅
                 end;
     formValues := resolveInitialValues env;
     initialValues := values;
     originalInitialValues := deepCopy values;
     isSubmitting := false; submitCount := 0;
     RESET_LOCK := false; controlledModelPaths := [];
     trace := [] |}.

(** The computed [errors] of a form. *)
Definition errors (st : FormState) : gmap string string := firstErrors (errorBag st).

(** [setFieldError(field, message)] *)
Definition setFieldError (field : string) (message : Message) (st : FormState) : FormState :=
  withErrorBag (setFieldErrorBag field message (errorBag st)) st.

(** [setErrors(fields)] *)
Definition setErrors (fields : gmap string Message) (st : FormState) : FormState :=
  withErrorBag (setErrorBag fields) st.

(** [mutateAllFields(mutation)] *)
Definition mutateAllFields (mutation : Field.t → Field.t) (st : FormState) : FormState :=
  withFieldObjects
    (map_fold (λ _ field objs, applyFieldMutation field mutation objs)
              (fieldObjects st) (fieldsByPath st))
    st.

(** [setFieldTouched(field, isTouched)] *)
Definition setFieldTouched (field : string) (isTouched : bool) (st : FormState) : FormState :=
  match fieldsByPath st !! field with
  | Some fieldInstance =>
      withFieldObjects
        (applyFieldMutation fieldInstance (fieldSetTouched isTouched) (fieldObjects st)) st
  | None => st
  end.

(** [setTouched(fields)] *)
Definition setTouched (fields : gmap string bool) (st : FormState) : FormState :=
  map_fold (λ field isTouched acc, setFieldTouched field isTouched acc) st fields.

(** ** Values of the form *)

Section SetValues.

(** [resolveNextCheckboxValue(currentValue, checkedValue, uncheckedValue)] is
    imported from [utils.ts], which is not part of the sources at hand: the
    checkbox toggle is a parameter of [setFieldValue]. *)
Variable resolveNextCheckboxValue : value → value → value → value.

(** [setFieldValue(field, value, { force })] *)
Definition setFieldValue (field : string) (v : value) (force : bool)
    (st : FormState) : FormState :=
  let clonedValue := deepCopy v in
  match fieldsByPath st !! field with
  | None => withFormValues (setInPath (formValues st) field clonedValue) st
  | Some fieldInstance =>
      let firstType :=
        match fieldInstance with
        | Group (f :: _) => Field.type <$> fieldObjects st !! f
        | _ => None
        end in
      if isFieldGroup fieldInstance
         && bool_decide (firstType = Some "checkbox")
         && negb (isArray v)
      then
        let current := getFromPath (formValues st) field in
        let newValue :=
          deepCopy (resolveNextCheckboxValue
                      (if truthyValue current then current else VArray [])
                      v VUndefined) in
        withFormValues (setInPath (formValues st) field newValue) st
      else
        let newValue :=
          match fieldInstance with
          | Single f =>
              match fieldObjects st !! f with
              | Some fieldObject =>
                  if bool_decide (Field.type fieldObject = "checkbox")
                     && negb force && negb (RESET_LOCK st)
                  then deepCopy (resolveNextCheckboxValue
                                   (getFromPath (formValues st) field) v
                                   (Field.uncheckedValue fieldObject))
                  else clonedValue
              | None => clonedValue
              end
          | Group _ => clonedValue
          end in
        withFormValues (setInPath (formValues st) field newValue) st
  end.

End SetValues.



(** [unsetInitialValue(path)] *)
Definition unsetInitialValue (path : string) (st : FormState) : FormState :=
  withInitialValues (unsetPath (initialValues st) path) st.

(** [keysOf(record)] *)
Definition keysOf {A : Type} (record : gmap string A) : list string :=
  (map_to_list record).*1.

(** The computed [controlledValues]. *)
Definition controlledValues (st : FormState) : gmap string value :=
  foldl (λ acc path, setInPath acc path (getFromPath (formValues st) path))
        ∅ (controlledModelPaths st ++ keysOf (fieldsByPath st)).

(** ** Meta aggregation *)

Module Flags.
Record t := mk {
  touched : bool;
  pending : bool;
  valid : bool;
}.
End Flags.

Module FormMeta.
Record t := mk {
  initialValues : gmap string value;
  touched : bool;
  pending : bool;
  valid : bool;
  dirty : bool;
}.
End FormMeta.

(** [Object.values(fieldsByPath.value).flat(1).filter(Boolean)] *)
Definition flatFields (fieldsByPath : gmap string FieldEntry)
    (objects : gmap nat Field.t) : list Field.t :=
  omap (λ f, objects !! f) ((map_to_list fieldsByPath).*2 ≫= members).

(** [calculateFlags()], the merge strategies being [some] for [touched] and
    [pending] and [every] for [valid]. *)
Definition calculateFlags (fieldsByPath : gmap string FieldEntry)
    (objects : gmap nat Field.t) : Flags.t :=
  let fields := flatFields fieldsByPath objects in
  Flags.mk (existsb (λ field, FieldMeta.touched (Field.meta field)) fields)
           (existsb (λ field, FieldMeta.pending (Field.meta field)) fields)
           (forallb (λ field, FieldMeta.valid (Field.meta field)) fields).

(** [useFormMeta(fieldsByPath, currentValues, initialValues, errors)]: the
    computed meta of the form. *)
Definition useFormMeta (fieldsByPath : gmap string FieldEntry)
    (objects : gmap nat Field.t) (currentValues initialValues : gmap string value)
    (errors : gmap string string) : FormMeta.t :=
  let isDirty := negb (isEqual currentValues initialValues) in
  let flags := calculateFlags fieldsByPath objects in
  FormMeta.mk initialValues
    (Flags.touched flags)
    (Flags.pending flags)
    (Flags.valid flags && (length (keysOf errors) =? 0))
    isDirty.

(** The [meta] of a form, as [useForm] builds it. *)
Definition meta (st : FormState) : FormMeta.t :=
  useFormMeta (fieldsByPath st) (fieldObjects st) (formValues st)
              (originalInitialValues st) (errors st).

(** ** Schema validation: reconciliation of a run *)

(** [Array.isArray(field) ? field.some(f => f.meta.validated) : field.meta.validated] *)
Definition wasValidated (field : FieldEntry) (objects : gmap nat Field.t) : bool :=
  match field with
  | Group fs =>
      existsb (λ f, default false
                      (FieldMeta.validated ∘ Field.meta <$> objects !! f)) fs
  | Single f => default false (FieldMeta.validated ∘ Field.meta <$> objects !! f)
  end.

(** The messages the schema result holds for a path:
    [(formResult.results[path] || { errors: [] }).errors] *)
Definition messagesAt (formResult : FormValidationResult.t) (path : string) : list string :=
  match FormValidationResult.results formResult !! path with
  | Some r => ValidationResult.errors r
  | None => []
  end.

(** One step of the reduce over the paths. *)
Definition reconcilePath (fieldsById : gmap string FieldEntry)
    (formResult : FormValidationResult.t) (mode : SchemaValidationMode)
    (acc : FormValidationResult.t * FormState) (path : string)
    : FormValidationResult.t * FormState :=
  let '(validation, st) := acc in
  let field := fieldsById !! path in
  let messages := messagesAt formResult path in
  let fieldResult := ValidationResult.mk messages (length messages =? 0) in
  let validation :=
    FormValidationResult.mk
      (FormValidationResult.valid validation)
      (<[path := fieldResult]> (FormValidationResult.results validation))
      (match messages with
       | m :: _ => <[path := m]> (FormValidationResult.errors validation)
       | [] => FormValidationResult.errors validation
       end)
      (FormValidationResult.values validation) in
  match field with
  | None => (validation, setFieldError path (MArray messages) st)
  | Some field =>
      let st :=
        withFieldObjects
          (applyFieldMutation field (setValid (ValidationResult.valid fieldResult))
                              (fieldObjects st)) st in
      if bool_decide (mode = silent) then (validation, st)
      else if bool_decide (mode = validated_only) && negb (wasValidated field (fieldObjects st))
      then (validation, st)
      else
        (validation,
         withFieldObjects
           (applyFieldMutation field (setStateErrors (ValidationResult.errors fieldResult))
                               (fieldObjects st)) st)
  end.

(** The paths a run goes through:
    [[...new Set([...keysOf(formResult.results), ...keysOf(fieldsById), ...currentErrorsPaths])]] *)
Definition reconcilePaths (formResult : FormValidationResult.t) (st : FormState) : list string :=
  remove_dups (keysOf (FormValidationResult.results formResult)
               ++ keysOf (fieldsByPath st)
               ++ keysOf (errorBag st)).

(** The callback [validateSchema] runs on the result of a schema run. *)
Definition reconcile (formResult : FormValidationResult.t) (mode : SchemaValidationMode)
    (st : FormState) : FormValidationResult.t * FormState :=
  foldl (reconcilePath (fieldsByPath st) formResult mode)
        (FormValidationResult.mk (FormValidationResult.valid formResult) ∅ ∅ None, st)
        (reconcilePaths formResult st).

(** [validateSchema(mode)]: the run of the schema on the current values, then
    the reconciliation of its result.  [debounceAsync] and [withLatest] come
    from [utils.ts], which is not part of the sources at hand: the run is taken
    when its batch settles and is the latest one, which is when the callback
    is applied to its result. *)
Definition validateSchema
    (run : gmap string value → Promise FormValidationResult.t)
    (mode : SchemaValidationMode) (st : FormState)
    : Promise FormValidationResult.t * FormState :=
  match run (formValues st) with
  | Rejected err => (Rejected err, st)
  | Resolved formResult =>
      let '(validation, st) := reconcile formResult mode st in
      (Resolved validation, st)
  end.

(** ** Validation of the form and of one field *)

(** [Promise.all]: rejected with the first rejection, fulfilled with all the
    values otherwise. *)
Fixpoint promiseAll {A : Type} (ps : list (Promise A)) : Promise (list A) :=
  match ps with
  | [] => Resolved []
  | Rejected err :: _ => Rejected err
  | Resolved a :: rest =>
      match promiseAll rest with
      | Resolved l => Resolved (a :: l)
      | Rejected err => Rejected err
      end
  end.

(** The first field of an entry, when it refers to a field object:
    [Array.isArray(field) ? field[0] : field] *)
Definition firstInstance (field : FieldEntry) (objects : gmap nat Field.t)
    : option (nat * Field.t) :=
  match field with
  | Group fs => head fs ≫= λ f, pair f <$> objects !! f
  | Single f => pair f <$> objects !! f
  end.

(** The validation a form without schema asks of one registry entry: the
    key it is filed under and what it settles to. *)
Definition entryValidation (env : Env) (objects : gmap nat Field.t)
    (field : FieldEntry) : Promise (string * ValidationResult.t) :=
  match firstInstance field objects with
  | None => Resolved (EmptyString, ValidationResult.mk [] true)
  | Some (f, fieldInstance) =>
      match fieldValidate env f with
      | Resolved result =>
          Resolved (Field.name fieldInstance,
                    ValidationResult.mk (ValidationResult.errors result)
                                        (ValidationResult.valid result))
      | Rejected err => Rejected err
      end
  end.

(** [validate(opts)], [mode] being [opts?.mode]. *)
Definition validate (env : Env) (mode : option SchemaValidationMode)
    (st : FormState) : Promise FormValidationResult.t * FormState :=
  let mode := default force mode in
  let st :=
    if bool_decide (mode = force) then mutateAllFields (setValidated true) st
    else st in
  match validationSchema env with
  | Some run => validateSchema run mode st
  | None =>
      let fields := (map_to_list (fieldsByPath st)).*2 in
      let calls :=
        omap (λ field, FieldValidate ∘ fst <$> firstInstance field (fieldObjects st))
             fields in
      let st := emit calls st in
      match promiseAll (map (entryValidation env (fieldObjects st)) fields) with
      | Rejected err => (Rejected err, st)
      | Resolved validations =>
          let results :=
            foldl (λ acc validation, <[validation.1 := validation.2]> acc)
                  ∅ validations in
          let errors :=
            foldl (λ acc validation,
                     match ValidationResult.errors validation.2 with
                     | m :: _ => <[validation.1 := m]> acc
                     | [] => acc
                     end)
                  ∅ validations in
          (Resolved
             (FormValidationResult.mk
                (forallb (λ r, ValidationResult.valid r.2) validations)
                results errors None),
           st)
      end
  end.

(** [validateField(field)].  A fulfilled promise carries [None] when the
    function returns [undefined] (the first element of an empty group). *)
Definition validateField (env : Env) (field : string) (st : FormState)
    : Promise (option ValidationResult.t) * FormState :=
  match fieldsByPath st !! field with
  | None =>
      (Resolved (Some (ValidationResult.mk [] true)),
       emit [Warn ("field with name " +:+ field +:+ " was not found")] st)
  | Some (Group fs) =>
      let st := emit (map FieldValidate fs) st in
      match map (fieldValidate env) fs with
      | [] => (Resolved None, st)
      | Resolved r :: _ => (Resolved (Some r), st)
      | Rejected err :: _ => (Rejected err, st)
      end
  | Some (Single f) =>
      let st := emit [FieldValidate f] st in
      match fieldValidate env f with
      | Resolved r => (Resolved (Some r), st)
      | Rejected err => (Rejected err, st)
      end
  end.

(** ** Submission *)

(** What the submit handler is called with: an [Event] or anything else. *)
Inductive SubmitTrigger :=
  | DomEvent
  | DirectCall.

Module SubmissionContext.
Record t := mk {
  evt : SubmitTrigger;
  controlledValues : gmap string value;
}.
End SubmissionContext.

Module InvalidSubmissionContext.
Record t := mk {
  values : gmap string value;
  evt : SubmitTrigger;
  errors : gmap string string;
  results : gmap string ValidationResult.t;
}.
End InvalidSubmissionContext.

(** The callbacks of the user.  They run on the form (the context hands them
    its setters) and return a value or throw; a returned promise is followed,
    so [Rejected] also stands for a promise that rejects. *)
Definition SubmissionHandler : Type :=
  gmap string value → SubmissionContext.t → FormState → Promise value * FormState.

Definition InvalidSubmissionHandler : Type :=
  InvalidSubmissionContext.t → FormState → Promise value * FormState.

(** The values handed to the success callback: [result.values] when the
    validation produced some, else the controlled or the full snapshot. *)
Definition submittedValues (onlyControlled : bool) (result : FormValidationResult.t)
    (st : FormState) : gmap string value :=
  let values := deepCopy (formValues st) in
  let controlled := deepCopy (controlledValues st) in
  match FormValidationResult.values result with
  | Some resultValues => resultValues
  | None => if onlyControlled then controlled else values
  end.

(** The first [then] of [submissionHandler]: what runs on the result of the
    validation. *)
Definition onValidated (onlyControlled : bool) (fn : option SubmissionHandler)
    (onValidationError : option InvalidSubmissionHandler) (e : SubmitTrigger)
    (result : FormValidationResult.t) (st : FormState) : Promise value * FormState :=
  let values := deepCopy (formValues st) in
  match FormValidationResult.valid result, fn with
  | true, Some fn =>
      let controlled := deepCopy (controlledValues st) in
      fn (submittedValues onlyControlled result st)
         (SubmissionContext.mk e controlled) st
  | _, _ =>
      match negb (FormValidationResult.valid result), onValidationError with
      | true, Some onValidationError =>
          match onValidationError
                  (InvalidSubmissionContext.mk values e
                     (FormValidationResult.errors result)
                     (FormValidationResult.results result)) st with
          | (Resolved _, st) => (Resolved VUndefined, st)
          | (Rejected err, st) => (Rejected err, st)
          end
      | _, _ => (Resolved VUndefined, st)
      end
  end.

(** The synchronous start of [submissionHandler]: the event is stopped, every
    registered path is touched, [isSubmitting] is raised and [submitCount]
    incremented. *)
Definition beginSubmit (e : SubmitTrigger) (st : FormState) : FormState :=
  let st :=
    match e with
    | DomEvent => emit [PreventDefault; StopPropagation] st
    | DirectCall => st
    end in
  let st := setTouched ((λ _, true) <$> fieldsByPath st) st in
  withSubmitting true (S (submitCount st)) st.

(** [makeSubmissionFactory(onlyControlled)(fn, onValidationError)(e)] *)
Definition submissionHandler (env : Env) (onlyControlled : bool)
    (fn : option SubmissionHandler)
    (onValidationError : option InvalidSubmissionHandler) (e : SubmitTrigger)
    (st : FormState) : Promise value * FormState :=
  let st := beginSubmit e st in
  let '(validation, st) := validate env None st in
  let '(settled, st) :=
    match validation with
    | Resolved result => onValidated onlyControlled fn onValidationError e result st
    | Rejected err => (Rejected err, st)
    end in
  match settled with
  | Resolved returnVal => (Resolved returnVal, withSubmitting false (submitCount st) st)
  | Rejected err => (Rejected err, withSubmitting false (submitCount st) st)
  end.

(** [handleSubmit] and [handleSubmit.withControlled] *)
Definition handleSubmit (env : Env) := submissionHandler env false.
Definition handleSubmitWithControlled (env : Env) := submissionHandler env true.

(** ** A field whose name changes *)

(** A string used as a condition: [undefined] and the empty string are falsy. *)
Definition truthyString (s : option string) : bool :=
  match s with
  | None | Some EmptyString => false
  | Some _ => true
  end.




(** ** Predicates the properties are stated with *)

(** Every entry of an error bag holds at least one message. *)
Definition nonEmptyEntries (bag : gmap string (list string)) : Prop :=
  map_Forall (λ _ l, l ≠ []) bag.

#[global] Instance nonEmptyEntries_dec bag : Decision (nonEmptyEntries bag).
Proof. unfold nonEmptyEntries. apply _. Defined.

(** No message of [fields] is the empty array. *)
Definition noEmptyArray (fields : gmap string Message) : Prop :=
  map_Forall (λ _ message, message ≠ MArray []) fields.

#[global] Instance noEmptyArray_dec fields : Decision (noEmptyArray fields).
Proof. unfold noEmptyArray. apply _. Defined.

(** The entries of [fields], normalized, that hold at least one message. *)
Definition normalizedNonEmptyEntries (fields : gmap string Message)
    : gmap string (list string) :=
  filter (λ kv, kv.2 ≠ []) (normalizeErrorItem <$> fields).

(** The paths of the schema result, of the registered fields and of the
    error-bag entries that hold at least one message. *)
Definition pathsWithNonEmptyErrors (formResult : FormValidationResult.t)
    (st : FormState) : gset string :=
  dom (FormValidationResult.results formResult)
  ∪ dom (fieldsByPath st)
  ∪ dom (filter (λ kv : string * list string, kv.2 ≠ []) (errorBag st)).

(** The fields registered at a path. *)
Definition fieldsAt (path : string) (fieldsByPath : gmap string FieldEntry) : list nat :=
  from_option members [] (fieldsByPath !! path).

(** A field is registered at one path only. *)
Definition registeredOnlyAt (f : nat) (path : string)
    (fieldsByPath : gmap string FieldEntry) : Prop :=
  map_Forall (λ q e, f ∈ members e → q = path) fieldsByPath.

#[global] Instance registeredOnlyAt_dec f path reg : Decision (registeredOnlyAt f path reg).
Proof. unfold registeredOnlyAt. apply _. Defined.

(** No entry that holds the field has a validated member. *)
Definition neverValidated (f : nat) (st : FormState) : Prop :=
  map_Forall (λ _ e, f ∈ members e → wasValidated e (fieldObjects st) = false)
             (fieldsByPath st).

#[global] Instance neverValidated_dec f st : Decision (neverValidated f st).
Proof. unfold neverValidated. apply _. Defined.

(** Two stores agree on what [π] reads of every field object. *)
Definition agreeOn {A : Type} (π : Field.t → A) (objects objects' : gmap nat Field.t) : Prop :=
  ∀ f, π <$> objects' !! f = π <$> objects !! f.

(** ** The rest of the form's operations *)

(** Modelled from the spec: [isEqual] of [utils.ts] on two values, deep
    structural equality. *)
Definition isEqualValue (a b : value) : bool := bool_decide (a = b).

Definition withResetLock (b : bool) (st : FormState) : FormState :=
  {| fieldsByPath := fieldsByPath st; fieldObjects := fieldObjects st;
     errorBag := errorBag st; formValues := formValues st;
     initialValues := initialValues st;
     originalInitialValues := originalInitialValues st;
     isSubmitting := isSubmitting st; submitCount := submitCount st;
     RESET_LOCK := b; controlledModelPaths := controlledModelPaths st;
     trace := trace st |}.

(** [Array.isArray(field) ? field.some(f => f.meta.touched) : field?.meta.touched] *)
Definition wasTouched (field : FieldEntry) (objects : gmap nat Field.t) : bool :=
  match field with
  | Group fs =>
      existsb (λ f, default false
                      (FieldMeta.touched ∘ Field.meta <$> objects !! f)) fs
  | Single f => default false (FieldMeta.touched ∘ Field.meta <$> objects !! f)
  end.

(** [setInitialValues(values, updateFields)] of [useFormInitialValues] *)
Definition setInitialValues (values : gmap string value) (updateFields : bool)
    (st : FormState) : FormState :=
  let st := withInitialValues (deepCopy values) st in
  let st := withOriginalInitialValues (deepCopy values) st in
  if negb updateFields then st
  else
    foldl (λ acc fieldPath,
             match fieldsByPath acc !! fieldPath with
             | None => acc
             | Some field =>
                 if wasTouched field (fieldObjects acc) then acc
                 else
                   let newValue := getFromPath (initialValues acc) fieldPath in
                   withFormValues
                     (setInPath (formValues acc) fieldPath (deepCopy newValue)) acc
             end)
          st (keysOf (fieldsByPath st)).

Section FormValues.

Variable resolveNextCheckboxValue : value → value → value → value.

(** The field arrays the form manages: what the [reset()] of each does to the
    form ([PrivateFieldArrayContext] belongs to [useFieldArray], which is not
    part of the sources at hand). *)
Variable fieldArrays : list (FormState → FormState).

(** [setValues(fields)] *)
Definition setValues (fields : gmap string value) (st : FormState) : FormState :=
  let st :=
    withFormValues
      (foldl (λ values key, delete key values) (formValues st) (keysOf (formValues st)))
      st in
  let st :=
    map_fold (λ path v acc, setFieldValue resolveNextCheckboxValue path v false acc)
             st fields in
  foldl (λ acc reset, reset acc) st fieldArrays.

(** The state [resetForm] is given: [Partial<FormState>]. *)
Record ResetState := {
  resetValues : option (gmap string value);
  resetTouched : option (gmap string bool);
  resetErrors : option (gmap string Message);
  resetSubmitCount : option nat;
}.

(** [resetForm(state)] after the fields have been reset: the values, the
    touched flags, the errors and the submit count are set. *)
Definition resetFormState (state : option ResetState) (st : FormState) : FormState :=
  let newValues :=
    match state ≫= resetValues with
    | Some values => values
    | None => originalInitialValues st
    end in
  let st := setInitialValues newValues false st in
  let st := setValues newValues st in
  let st :=
    match state ≫= resetTouched with
    | Some touched => setTouched touched st
    | None => st
    end in
  let st := setErrors (default ∅ (state ≫= resetErrors)) st in
  withSubmitting (isSubmitting st) (default 0 (state ≫= resetSubmitCount)) st.

(** [resetForm(state)], up to the next tick.  [fieldReset f] is what
    [f.resetField()] does to the form; it is called on every field of the
    registry. *)
Definition resetForm (fieldReset : nat → FormState → FormState)
    (state : option ResetState) (st : FormState) : FormState :=
  let st := withResetLock true st in
  let st :=
    foldl (λ acc f, fieldReset f acc) st
          ((map_to_list (fieldsByPath st)).*2 ≫= members) in
  resetFormState state st.

(** The callback [resetForm] leaves for the next tick. *)
Definition resetFormTick (st : FormState) : FormState := withResetLock false st.

(** [Array.findIndex] with [isEqual] followed by [splice(idx, 1)] on a copy:
    the first item equal to [checkedValue] is removed; [None] when there is
    none. *)
Fixpoint spliceValue (checkedValue : value) (items : list value) : option (list value) :=
  match items with
  | [] => None
  | i :: rest =>
      if isEqualValue i checkedValue then Some rest
      else cons i <$> spliceValue checkedValue rest
  end.

(** [isEmptyContainer] is imported from [utils.ts], which is not part of the
    sources at hand: it is a parameter of the cleanup. *)
Variable isEmptyContainer : value → bool.

(** [unregisterField(field)], up to the next tick: the field leaves the
    registry.  The result carries [isGroup], which the deferred cleanup
    reads. *)
Definition unregisterField (field : nat) (fieldName : string) (st : FormState)
    : bool * FormState :=
  let isGroup :=
    match fieldsByPath st !! fieldName with
    | Some fieldInstance => isFieldGroup fieldInstance
    | None => false
    end in
  (isGroup,
   withFieldsByPath (removeFieldFromPath field fieldName (fieldsByPath st)) st).

(** The cleanup [unregisterField] leaves for the next tick.
    [keepValueOnUnmount] and [checkedValue] are those of the field and
    [keepValuesOnUnmount] the option of the form; [sameArray] tells whether
    the entry of the path is still the array object it was when the field
    left ([fieldInstance === fieldsByPath.value[fieldName]]), which the
    registry of ids does not record. *)
Definition unregisterCleanup (fieldName : string) (isGroup sameArray : bool)
    (keepValueOnUnmount : option bool) (keepValuesOnUnmount : bool)
    (checkedValue : value) (st : FormState) : FormState :=
  let shouldKeepValue := default keepValuesOnUnmount keepValueOnUnmount in
  let currentGroupValue := getFromPath (formValues st) fieldName in
  let isSameGroup :=
    isGroup && (sameArray || negb (fieldExists fieldName (fieldsByPath st))) in
  let st :=
    if isSameGroup && negb shouldKeepValue then
      match currentGroupValue with
      | VArray items =>
          match spliceValue checkedValue items with
          | Some newVal =>
              setFieldValue resolveNextCheckboxValue fieldName (VArray newVal) true st
          | None => st
          end
      | _ =>
          if bool_decide (currentGroupValue = checkedValue)
          then withFormValues (unsetPath (formValues st) fieldName) st
          else st
      end
    else st in
  if negb (fieldExists fieldName (fieldsByPath st)) then
    let st := setFieldError fieldName MUndefined st in
    if shouldKeepValue then st
    else if isGroup && isArray currentGroupValue
            && negb (isEmptyContainer currentGroupValue)
    then st
    else withFormValues (unsetPath (formValues st) fieldName) st
  else st.

End FormValues.

(** [registerField(field)], the watcher of the name apart (see
    [onNameChange]).  [fieldPath] is [unref(field.name)], [errorMessage] is
    [unref(field.errorMessage)], and [initialErrors] is the form's mutable copy
    of [opts.initialErrors], which the function updates. *)
Definition registerField (env : Env) (field : nat) (fieldPath : string)
    (errorMessage : option string) (initialErrors : gmap string string)
    (st : FormState) : gmap string string * FormState :=
  let st := withFieldsByPath (insertFieldAtPath field fieldPath (fieldsByPath st)) st in
  let st :=
    if truthyString errorMessage
       && negb (bool_decide (initialErrors !! fieldPath = errorMessage))
    then (validateField env fieldPath st).2
    else st in
  (delete fieldPath initialErrors, st).

(** What [onMounted] runs: the initial errors and touched flags are applied,
    then the form is validated, or its schema run silently.
    [initialTouched] and [validateOnMount] are the options of the same
    name. *)
Definition onMounted (env : Env) (initialTouched : option (gmap string bool))
    (validateOnMount : bool) (st : FormState) : FormState :=
  let st :=
    match optsInitialErrors env with
    | Some initialErrors => setErrors initialErrors st
    | None => st
    end in
  let st :=
    match initialTouched with
    | Some touched => setTouched touched st
    | None => st
    end in
  if validateOnMount then (validate env None st).2
  else
    match validationSchema env with
    | Some run => (validateSchema run silent st).2
    | None => st
    end.

(** ** More predicates *)

(** No entry of the registry is a group without member. *)
Definition noEmptyGroup (fieldsByPath : gmap string FieldEntry) : Prop :=
  map_Forall (λ _ e, e ≠ Group []) fieldsByPath.

#[global] Instance noEmptyGroup_dec reg : Decision (noEmptyGroup reg).
Proof. unfold noEmptyGroup. apply _. Defined.

(** The field object [f] is held by an entry of the registry. *)
Definition registered (f : nat) (fieldsByPath : gmap string FieldEntry) : Prop :=
  ∃ path e, fieldsByPath !! path = Some e ∧ f ∈ members e.

#[global] Instance registered_dec f reg : Decision (registered f reg).
Proof.
  change (Decision (map_Exists (λ _ e, f ∈ members e) reg)). apply _.
Defined.



(** The field object [f] is held by the entry of a path that [fields] names. *)
Definition namedBy {A : Type} (f : nat) (fields : gmap string A)
    (fieldsByPath : gmap string FieldEntry) : Prop :=
  map_Exists (λ path _, f ∈ fieldsAt path fieldsByPath) fields.

#[global] Instance namedBy_dec {A} f (fields : gmap string A) reg :
  Decision (namedBy f fields reg).
Proof. unfold namedBy. apply _. Defined.

(** * Properties *)

(** ** Error bag *)

Lemma setFieldErrorBag_lookup field message (bag : gmap string (list string)) path :
  setFieldErrorBag field message bag !! path =
    if decide (field = path)
    then (if truthy message then Some (normalizeErrorItem message) else None)
    else bag !! path.
Proof.
  unfold setFieldErrorBag.
  destruct (truthy message); [rewrite lookup_insert | rewrite lookup_delete];
    by case_decide.
Qed.

Lemma setErrorBag_lookup (fields : gmap string Message) path :
  setErrorBag fields !! path =
    match fields !! path with
    | Some message =>
        if truthy message then Some (normalizeErrorItem message) else None
    | None => None
    end.
Proof.
  unfold setErrorBag.
  apply (map_fold_weak_ind (λ acc m, acc !! path =
    match m !! path with
    | Some message =>
        if truthy message then Some (normalizeErrorItem message) else None
    | None => None
    end)).
  - by rewrite !lookup_empty.
  - intros key message m acc Hfresh IH.
    destruct (decide (key = path)) as [->|Hne].
    + rewrite lookup_insert_eq. rewrite Hfresh in IH.
      destruct (truthy message); [by rewrite lookup_insert_eq | done].
    + rewrite lookup_insert_ne by done.
      destruct (truthy message); [by rewrite lookup_insert_ne | done].
Qed.

Lemma firstErrors_lookup (bag : gmap string (list string)) path :
  firstErrors bag !! path = bag !! path ≫= head.
Proof.
  unfold firstErrors.
  apply (map_fold_weak_ind (λ acc m, acc !! path = m !! path ≫= head)).
  - by rewrite !lookup_empty.
  - intros key l m acc Hfresh IH.
    destruct (decide (key = path)) as [->|Hne].
    + rewrite lookup_insert_eq. rewrite Hfresh in IH. simpl in *.
      destruct l; [done | by rewrite lookup_insert_eq].
    + rewrite lookup_insert_ne by done.
      destruct l; [done | by rewrite lookup_insert_ne].
Qed.

Lemma normalizeErrorItem_nonempty message :
  truthy message = true → message ≠ MArray [] → normalizeErrorItem message ≠ [].
Proof. by destruct message as [|[|]|[|]]. Qed.

Lemma falsy_message message :
  truthy message = false ↔ message = MUndefined ∨ message = MString EmptyString.
Proof.
  destruct message as [|[|]|]; simpl; split; try done; try (by left); try (by right);
    by intros [|].
Qed.

(** C8, as the code has it: what an error-setting operation leaves at a
    path.  [setFieldErrorBag] removes the entry of its path when the message
    is [undefined] or the empty string, stores the one-message list of a
    non-empty string, and stores an array as it is given, the empty array
    included: the path then has an empty entry, which the first-error map
    skips.  The entries of the other paths are the same.  So every entry of
    the error bag stays non-empty as long as no message given is the empty
    array, for [setFieldErrorBag] and for [setErrorBag] alike. *)
Theorem error_bag_entries_nonempty
    (bag : gmap string (list string)) field message (fields : gmap string Message) :
  (message = MUndefined ∨ message = MString EmptyString →
     setFieldErrorBag field message bag !! field = None)
  ∧ (∀ s, message = MString s → s ≠ EmptyString →
     setFieldErrorBag field message bag !! field = Some [s])
  ∧ (∀ l, message = MArray l →
     setFieldErrorBag field message bag !! field = Some l)
  ∧ setFieldErrorBag field (MArray []) bag !! field = Some []
  ∧ firstErrors (setFieldErrorBag field (MArray []) bag) !! field = None
  ∧ (∀ path, field ≠ path →
     setFieldErrorBag field message bag !! path = bag !! path)
  ∧ (nonEmptyEntries bag → message ≠ MArray [] →
     nonEmptyEntries (setFieldErrorBag field message bag))
  ∧ (noEmptyArray fields → nonEmptyEntries (setErrorBag fields)).
Proof.
  split; [|split; [|split; [|split; [|split; [|split; [|split]]]]]].
  - intros Hfalsy%falsy_message. rewrite setFieldErrorBag_lookup.
    rewrite decide_True by done. by rewrite Hfalsy.
  - intros s -> Hs. rewrite setFieldErrorBag_lookup, decide_True by done.
    by destruct s.
  - intros l ->. by rewrite setFieldErrorBag_lookup, decide_True.
  - by rewrite setFieldErrorBag_lookup, decide_True.
  - by rewrite firstErrors_lookup, setFieldErrorBag_lookup, decide_True.
  - intros path Hne. by rewrite setFieldErrorBag_lookup, decide_False.
  - intros Hbag Hmsg path l. rewrite setFieldErrorBag_lookup.
    case_decide; [|by apply Hbag].
    destruct (truthy message) eqn:Ht; [|done].
    intros [= <-]. by apply normalizeErrorItem_nonempty.
  - intros Hfields path l. rewrite setErrorBag_lookup.
    destruct (fields !! path) as [m|] eqn:Hm; [|done].
    destruct (truthy m) eqn:Ht; [|done].
    intros [= <-]. apply normalizeErrorItem_nonempty; [done|].
    by apply (Hfields path).
Qed.

Lemma error_bag_entries_nonempty_witness :
  nonEmptyEntries (setFieldErrorBag "email" MUndefined {[ "email" := ["required"] ]})
  ∧ setFieldErrorBag "email" MUndefined {[ "email" := ["required"] ]} !! "email" = None
  ∧ nonEmptyEntries (setErrorBag {[ "name" := MString "too short" ]}).
Proof.
  pose proof (error_bag_entries_nonempty
                {[ "email" := ["required"] ]} "email" MUndefined
                {[ "name" := MString "too short" ]}) as H.
  destruct H as (H1 & _ & _ & _ & _ & _ & H2 & H3).
  split; [|split].
  - apply H2; [|discriminate]. apply (bool_decide_unpack _). vm_compute. exact I.
  - apply H1. by left.
  - apply H3. apply (bool_decide_unpack _). vm_compute. exact I.
Defined.

(** C8, as stated, fails: setting the messages of a path to the empty list
    leaves an empty entry in the bag. *)
Lemma empty_list_leaves_empty_entry :
  setFieldErrorBag "email" (MArray []) {[ "email" := ["required"] ]} !! "email"
    = Some []
  ∧ ¬ nonEmptyEntries (setFieldErrorBag "email" (MArray []) {[ "email" := ["required"] ]}).
Proof.
  split; [reflexivity|].
  intros H. by apply (H "email" []).
Qed.

(** C9, as the code has it: [setErrors] replaces the whole bag.  Afterwards
    a path has an entry exactly when [fields] maps it to a truthy message (a
    non-empty string or an array, the empty array included), and the entry is
    that message normalized; a path that [fields] does not mention, or maps
    to [undefined], the empty string or the empty array, has no error left in
    the first-error map.  [setFieldError] changes the entry of its own path
    only. *)
Theorem setErrors_replaces_bag (fields : gmap string Message) (st : FormState) path :
  errorBag (setErrors fields st) !! path =
    match fields !! path with
    | Some message =>
        if truthy message then Some (normalizeErrorItem message) else None
    | None => None
    end
  ∧ (from_option normalizeErrorItem [] (fields !! path) = [] →
     errors (setErrors fields st) !! path = None)
  ∧ (∀ other message, other ≠ path →
     errorBag (setFieldError other message st) !! path = errorBag st !! path).
Proof.
  repeat split.
  - apply setErrorBag_lookup.
  - intros Hempty. unfold errors, setErrors. simpl.
    rewrite firstErrors_lookup, setErrorBag_lookup.
    destruct (fields !! path) as [m|]; [|done]. simpl in Hempty.
    destruct (truthy m); [|done]. simpl. by rewrite Hempty.
  - intros other message Hne. unfold setFieldError. simpl.
    rewrite setFieldErrorBag_lookup. by rewrite decide_False.
Qed.

Lemma setErrors_replaces_bag_witness :
  errors (setErrors {[ "name" := MString "too short" ]}
            (setFieldError "email" (MString "required") (useForm
               (Build_Env None None None None (λ _, Rejected "unused")))))
    !! "email" = None.
Proof.
  eapply (proj1 (proj2 (setErrors_replaces_bag _ _ "email"))).
  reflexivity.
Defined.

(** C9, as stated, fails: an empty array in [fields] is kept as an (empty)
    entry of the bag, which is therefore not made of the non-empty
    normalized entries of [fields] only. *)
Lemma setErrors_keeps_empty_array :
  errorBag (setErrors {[ "email" := MArray [] ]}
             (useForm (Build_Env None None None None (λ _, Rejected "unused"))))
    ≠ normalizedNonEmptyEntries {[ "email" := MArray [] ]}.
Proof.
  intros H. apply (f_equal (λ m, m !! "email")) in H.
  vm_compute in H. discriminate.
Qed.

(** ** Path registry *)

Lemma spliceFirst_empty field fs :
  spliceFirst field fs = Some [] ↔ fs = [field].
Proof.
  destruct fs as [|f rest]; simpl; [naive_solver|].
  case_decide as Hf.
  - subst. split; [by intros [= ->] | by intros [= ->]].
  - split.
    + destruct (spliceFirst field rest); simpl; naive_solver.
    + intros [= -> ->]. done.
Qed.

Lemma insertFieldAtPath_lookup field fieldPath (reg : gmap string FieldEntry) path :
  insertFieldAtPath field fieldPath reg !! path =
    if decide (fieldPath = path)
    then Some (match reg !! path with
               | None => Single field
               | Some e => Group (members e ++ [field])
               end)
    else reg !! path.
Proof.
  unfold insertFieldAtPath.
  destruct (decide (fieldPath = path)) as [->|Hne].
  - destruct (reg !! path) as [[f|fs]|]; by rewrite lookup_insert_eq.
  - destruct (reg !! fieldPath) as [[f|fs]|]; by rewrite lookup_insert_ne.
Qed.

Lemma removeFieldFromPath_lookup_ne field fieldPath (reg : gmap string FieldEntry) path :
  fieldPath ≠ path → removeFieldFromPath field fieldPath reg !! path = reg !! path.
Proof.
  intros Hne. unfold removeFieldFromPath.
  destruct (reg !! fieldPath) as [[f|fs]|]; [|destruct (spliceFirst field fs) as [[|g l]|]|];
    repeat case_decide; by rewrite ?lookup_delete_ne, ?lookup_insert_ne.
Qed.

Lemma removeFieldFromPath_lookup_eq field (reg : gmap string FieldEntry) path :
  removeFieldFromPath field path reg !! path =
    match reg !! path with
    | None => None
    | Some (Single f) => if decide (field = f) then None else Some (Single f)
    | Some (Group fs) =>
        match spliceFirst field fs with
        | None => Some (Group fs)
        | Some [] => None
        | Some fs' => Some (Group fs')
        end
    end.
Proof.
  unfold removeFieldFromPath.
  destruct (reg !! path) as [[f|fs]|] eqn:Hp; [| |done].
  - case_decide; by rewrite ?lookup_delete_eq.
  - destruct (spliceFirst field fs) as [[|g l]|];
      by rewrite ?lookup_delete_eq, ?lookup_insert_eq.
Qed.

(** C6: an entry that is a group stays a group under every insert and
    remove, until the removal of its last member deletes it; it is never
    turned back into a single field.  A remove deletes an entry only when the
    entry is the single field being removed or a group whose only member is
    that field. *)
Theorem registry_group_never_reverts
    (reg : gmap string FieldEntry) (field : nat) (fieldPath path : string) (fs : list nat) :
  reg !! path = Some (Group fs) →
  (∃ fs', insertFieldAtPath field fieldPath reg !! path = Some (Group fs')
          ∧ fs `prefix_of` fs')
  ∧ match removeFieldFromPath field fieldPath reg !! path with
    | Some (Single _) => False
    | Some (Group fs') =>
        fs' = fs ∨ (fieldPath = path ∧ spliceFirst field fs = Some fs' ∧ fs' ≠ [])
    | None => fieldPath = path ∧ fs = [field]
    end
  ∧ (∀ q e, reg !! q = Some e →
       removeFieldFromPath field fieldPath reg !! q = None →
       fieldPath = q ∧ (e = Single field ∨ e = Group [field])).
Proof.
  intros Hgroup. split; [|split].
  - rewrite insertFieldAtPath_lookup, Hgroup. case_decide.
    + eexists. split; [done|]. by apply prefix_app_r.
    + by eexists.
  - destruct (decide (fieldPath = path)) as [->|Hne].
    + rewrite removeFieldFromPath_lookup_eq, Hgroup.
      destruct (spliceFirst field fs) as [[|g l]|] eqn:Hs.
      * split; [done|]. by apply spliceFirst_empty.
      * right. done.
      * by left.
    + rewrite removeFieldFromPath_lookup_ne, Hgroup by done. by left.
  - intros q e He. destruct (decide (fieldPath = q)) as [->|Hne].
    + rewrite removeFieldFromPath_lookup_eq, He. destruct e as [f|gs].
      * case_decide; [|done]. subst. by intros; split; [|left].
      * destruct (spliceFirst field gs) as [[|g l]|] eqn:Hs; [|done|done].
        apply spliceFirst_empty in Hs as ->. by intros; split; [|right].
    + rewrite removeFieldFromPath_lookup_ne, He by done. done.
Qed.

Lemma registry_group_never_reverts_witness :
  removeFieldFromPath 1 "colors" {[ "colors" := Group [1; 2] ]} !! "colors"
    = Some (Group [2])
  ∧ removeFieldFromPath 2 "colors"
      (removeFieldFromPath 1 "colors" {[ "colors" := Group [1; 2] ]}) !! "colors"
    = None.
Proof.
  pose proof (registry_group_never_reverts
                {[ "colors" := Group [1; 2] ]} 1 "colors" "colors" [1; 2]
                eq_refl) as (_ & H & _).
  split; [|reflexivity].
  destruct (removeFieldFromPath 1 "colors" {[ "colors" := Group [1; 2] ]} !! "colors")
    as [[f|fs']|] eqn:Hr; [done| |].
  - vm_compute in Hr. by injection Hr as <-.
  - vm_compute in Hr. discriminate.
Defined.

(** ** Meta aggregation *)

Lemma keysOf_length_zero {A} (m : gmap string A) :
  (length (keysOf m) =? 0) = true ↔ m = ∅.
Proof.
  unfold keysOf. rewrite length_fmap, Nat.eqb_eq. split.
  - intros Hlen. apply map_to_list_empty_iff. by apply nil_length_inv.
  - intros ->. by rewrite map_to_list_empty.
Qed.


(** C10: with no field registered the aggregated flags are [touched = false],
    [pending = false] and [valid = true], and the [valid] the form exposes is
    true exactly when the first-error map is empty. *)
Theorem meta_without_fields (st : FormState) :
  fieldsByPath st = ∅ →
  calculateFlags (fieldsByPath st) (fieldObjects st) = Flags.mk false false true
  ∧ FormMeta.touched (meta st) = false
  ∧ FormMeta.pending (meta st) = false
  ∧ FormMeta.valid (meta st) = bool_decide (errors st = ∅).
Proof.
  intros Hempty.
  assert (calculateFlags (fieldsByPath st) (fieldObjects st) = Flags.mk false false true)
    as Hflags.
  { unfold calculateFlags, flatFields. by rewrite Hempty, map_to_list_empty. }
  unfold meta, useFormMeta. rewrite Hflags. simpl.
  repeat split.
  destruct (length (keysOf (errors st)) =? 0) eqn:Hlen; symmetry.
  - apply bool_decide_eq_true_2. by apply keysOf_length_zero.
  - apply bool_decide_eq_false_2. intros Herr%keysOf_length_zero. congruence.
Qed.

Lemma meta_without_fields_witness :
  FormMeta.valid
    (meta (setFieldError "email" (MString "required")
             (useForm (Build_Env None None None None (λ _, Rejected "unused")))))
  = false.
Proof.
  pose proof (meta_without_fields
                (setFieldError "email" (MString "required")
                   (useForm (Build_Env None None None None (λ _, Rejected "unused"))))
                eq_refl) as (_ & _ & _ & H).
  rewrite H. vm_compute. reflexivity.
Defined.








(** ** Validation of one field *)

(** C5, as the code has it: [validateField] never throws.  At a path with no
    field it logs one warning and resolves with the trivially valid result,
    leaving the form as it is.  At a group it calls [validate()] on every
    member, in order, and resolves with what the first member's call settles
    to. *)
Theorem validateField_cases (env : Env) (st : FormState) (path : string) :
  (fieldsByPath st !! path = None →
     (validateField env path st).1 = Resolved (Some (ValidationResult.mk [] true))
     ∧ trace (validateField env path st).2
       = trace st ++ [Warn ("field with name " +:+ path +:+ " was not found")]
     ∧ fieldsByPath (validateField env path st).2 = fieldsByPath st
     ∧ fieldObjects (validateField env path st).2 = fieldObjects st
     ∧ errorBag (validateField env path st).2 = errorBag st
     ∧ formValues (validateField env path st).2 = formValues st)
  ∧ (∀ first rest, fieldsByPath st !! path = Some (Group (first :: rest)) →
     trace (validateField env path st).2
       = trace st ++ map FieldValidate (first :: rest)
     ∧ (validateField env path st).1
       = match fieldValidate env first with
         | Resolved r => Resolved (Some r)
         | Rejected err => Rejected err
         end).
Proof.
  split.
  - intros Hnone. unfold validateField. by rewrite Hnone.
  - intros first rest Hgroup. unfold validateField. rewrite Hgroup. simpl.
    by destruct (fieldValidate env first).
Qed.

Lemma validateField_cases_witness :
  (validateField (Build_Env None None None None (λ _, Rejected "unused")) "email"
     (useForm (Build_Env None None None None (λ _, Rejected "unused")))).1
  = Resolved (Some (ValidationResult.mk [] true)).
Proof.
  refine (proj1 (proj1 (validateField_cases
            (Build_Env None None None None (λ _, Rejected "unused"))
            (useForm (Build_Env None None None None (λ _, Rejected "unused")))
            "email") _)).
  reflexivity.
Defined.

(** C5, as stated, fails: at a group the second member is validated too. *)
Lemma validateField_validates_whole_group :
  let env := Build_Env None None None None
               (λ f, Resolved (ValidationResult.mk [] true)) in
  let st := withFieldsByPath {[ "colors" := Group [1; 2] ]} (useForm env) in
  trace (validateField env "colors" st).2 = [FieldValidate 1; FieldValidate 2]
  ∧ trace (validateField env "colors" st).2 ≠ trace st ++ [FieldValidate 1].
Proof. vm_compute. split; [reflexivity | discriminate]. Qed.

(** ** Submission *)

Lemma isSubmitting_beginSubmit e st : isSubmitting (beginSubmit e st) = true.
Proof. reflexivity. Qed.

(** C4: whatever the validation and the callbacks do, the handler settles
    with [isSubmitting] false; and when the validation succeeds and the
    success callback throws, the handler is rejected with the error the
    callback threw. *)
Theorem submissionHandler_resets_isSubmitting
    (env : Env) (onlyControlled : bool) (fn : option SubmissionHandler)
    (onValidationError : option InvalidSubmissionHandler) (e : SubmitTrigger)
    (st : FormState) :
  isSubmitting (submissionHandler env onlyControlled fn onValidationError e st).2 = false
  ∧ (∀ callback result st1 err st2,
       fn = Some callback →
       validate env None (beginSubmit e st) = (Resolved result, st1) →
       FormValidationResult.valid result = true →
       callback (submittedValues onlyControlled result st1)
                (SubmissionContext.mk e (controlledValues st1)) st1
         = (Rejected err, st2) →
       submissionHandler env onlyControlled fn onValidationError e st
         = (Rejected err, withSubmitting false (submitCount st2) st2)).
Proof.
  split.
  - unfold submissionHandler.
    destruct (validate env None (beginSubmit e st)) as [[result|err] st1].
    + destruct (onValidated onlyControlled fn onValidationError e result st1)
        as [[returnVal|err] st2]; reflexivity.
    + reflexivity.
  - intros callback result st1 err st2 -> Hvalidate Hvalid Hthrow.
    unfold submissionHandler. rewrite Hvalidate.
    unfold onValidated. rewrite Hvalid. unfold deepCopy.
    by rewrite Hthrow.
Qed.

Lemma submissionHandler_resets_isSubmitting_witness :
  let env := Build_Env None None None None (λ _, Rejected "unused") in
  submissionHandler env false (Some (λ _ _ st, (Rejected "save failed", st))) None
    DirectCall (useForm env)
  = (Rejected "save failed", withSubmitting false 1 (useForm env)).
Proof.
  intros env.
  refine (proj2 (submissionHandler_resets_isSubmitting env false
            (Some (λ _ _ st, (Rejected "save failed", st))) None DirectCall (useForm env))
            (λ _ _ st, (Rejected "save failed", st))
            (FormValidationResult.mk true ∅ ∅ None)
            (withSubmitting true 1 (useForm env)) "save failed"
            (withSubmitting true 1 (useForm env)) eq_refl _ eq_refl eq_refl).
  vm_compute. reflexivity.
Defined.

(** ** A field whose name changes *)




Lemma fieldsAt_insert field path (reg : gmap string FieldEntry) :
  field ∈ fieldsAt path (insertFieldAtPath field path reg).
Proof.
  unfold fieldsAt. rewrite insertFieldAtPath_lookup, decide_True by done.
  destruct (reg !! path) as [e|]; simpl.
  - apply elem_of_app. right. apply list_elem_of_here.
  - apply list_elem_of_here.
Qed.










(** ** Reconciliation of a schema run *)

Lemma alter_agreeOn {A} (π : Field.t → A) mutation (objects : gmap nat Field.t) f :
  (∀ x, π (mutation x) = π x) →
  agreeOn π objects (alter mutation f objects).
Proof.
  intros Hπ g. rewrite lookup_alter. case_decide; [|done].
  subst. destruct (objects !! g); simpl; [by rewrite Hπ | done].
Qed.

Lemma agreeOn_trans {A} (π : Field.t → A) (o1 o2 o3 : gmap nat Field.t) :
  agreeOn π o1 o2 → agreeOn π o2 o3 → agreeOn π o1 o3.
Proof. intros H12 H23 f. by rewrite H23, H12. Qed.

Lemma applyFieldMutation_agreeOn {A} (π : Field.t → A) mutation e
    (objects : gmap nat Field.t) :
  (∀ x, π (mutation x) = π x) →
  agreeOn π objects (applyFieldMutation e mutation objects).
Proof.
  intros Hπ. destruct e as [f|fs]; simpl; [by apply alter_agreeOn|].
  revert objects. induction fs as [|f fs IH]; intros objects; simpl; [done|].
  eapply agreeOn_trans; [|apply IH]. by apply alter_agreeOn.
Qed.

Lemma applyFieldMutation_lookup_ne mutation e (objects : gmap nat Field.t) f :
  f ∉ members e → applyFieldMutation e mutation objects !! f = objects !! f.
Proof.
  destruct e as [g|fs]; simpl.
  - intros Hg. rewrite lookup_alter_ne; [done|].
    intros ->. apply Hg, list_elem_of_here.
  - revert objects. induction fs as [|g fs IH]; intros objects Hf; simpl; [done|].
    rewrite IH.
    + rewrite lookup_alter_ne; [done|]. intros ->. apply Hf, list_elem_of_here.
    + intros Hin. by apply Hf, list_elem_of_further.
Qed.

Lemma applyFieldMutation_lookup mutation e (objects : gmap nat Field.t) f :
  (∀ x, mutation (mutation x) = mutation x) →
  f ∈ members e →
  applyFieldMutation e mutation objects !! f = mutation <$> objects !! f.
Proof.
  intros Hidem. destruct e as [g|fs]; simpl.
  - intros ->%list_elem_of_singleton. by rewrite lookup_alter_eq.
  - revert objects. induction fs as [|g fs IH]; intros objects Hf; simpl.
    + by apply elem_of_nil in Hf.
    + destruct (decide (f ∈ fs)) as [Hin|Hnotin].
      * rewrite IH by done. rewrite lookup_alter. case_decide; [|done].
        subst. destruct (objects !! f); simpl; [by rewrite Hidem | done].
      * apply elem_of_cons in Hf as [<-|?]; [|done].
        pose proof (applyFieldMutation_lookup_ne mutation (Group fs)
                      (alter mutation f objects) f Hnotin) as Hrest.
        simpl in Hrest. by rewrite Hrest, lookup_alter_eq.
Qed.

Lemma wasValidated_agreeOn e (objects objects' : gmap nat Field.t) :
  agreeOn (FieldMeta.validated ∘ Field.meta) objects objects' →
  wasValidated e objects' = wasValidated e objects.
Proof.
  intros Hagree. destruct e as [f|fs]; simpl.
  - by rewrite Hagree.
  - induction fs as [|f fs IH]; simpl; [done|]. by rewrite Hagree, IH.
Qed.

(** What one step of the reduce does to the state and to the result. *)
Lemma reconcilePath_state R formResult mode validation st path :
  let st' := (reconcilePath R formResult mode (validation, st) path).2 in
  let messages := messagesAt formResult path in
  fieldsByPath st' = fieldsByPath st
  ∧ errorBag st' =
      match R !! path with
      | None => setFieldErrorBag path (MArray messages) (errorBag st)
      | Some _ => errorBag st
      end
  ∧ fieldObjects st' =
      match R !! path with
      | None => fieldObjects st
      | Some e =>
          let marked :=
            applyFieldMutation e (setValid (length messages =? 0)) (fieldObjects st) in
          if bool_decide (mode = silent) then marked
          else if bool_decide (mode = validated_only) && negb (wasValidated e marked)
          then marked
          else applyFieldMutation e (setStateErrors messages) marked
      end.
Proof.
  unfold reconcilePath. destruct (R !! path) as [e|]; simpl; [|done].
  repeat case_match; done.
Qed.

Lemma reconcilePath_results R formResult mode validation st path :
  FormValidationResult.results
    (reconcilePath R formResult mode (validation, st) path).1
  = <[path := ValidationResult.mk (messagesAt formResult path)
                (length (messagesAt formResult path) =? 0)]>
      (FormValidationResult.results validation).
Proof.
  unfold reconcilePath. destruct (R !! path) as [e|]; simpl; [|done].
  repeat case_match; done.
Qed.

Lemma reconcile_fold_results R formResult mode paths acc path :
  FormValidationResult.results
    (foldl (reconcilePath R formResult mode) acc paths).1 !! path
  = if decide (path ∈ paths)
    then Some (ValidationResult.mk (messagesAt formResult path)
                 (length (messagesAt formResult path) =? 0))
    else FormValidationResult.results acc.1 !! path.
Proof.
  revert acc. induction paths as [|p paths IH]; intros [validation st]; cbn [foldl].
  - rewrite decide_False; [done | apply not_elem_of_nil].
  - rewrite IH. destruct (decide (path ∈ paths)) as [Hin|Hnotin].
    + rewrite decide_True; [done | by apply list_elem_of_further].
    + rewrite reconcilePath_results. destruct (decide (p = path)) as [->|Hne].
      * rewrite lookup_insert_eq, decide_True; [done | apply list_elem_of_here].
      * rewrite lookup_insert_ne by done. rewrite decide_False; [done|].
        intros [?|?]%elem_of_cons; by subst.
Qed.

Lemma reconcile_fold_errorBag R formResult mode paths acc path :
  errorBag (foldl (reconcilePath R formResult mode) acc paths).2 !! path
  = if decide (path ∈ paths ∧ R !! path = None)
    then Some (messagesAt formResult path)
    else errorBag acc.2 !! path.
Proof.
  revert acc. induction paths as [|p paths IH]; intros [validation st]; cbn [foldl].
  - rewrite decide_False; [done|]. intros [[]%elem_of_nil _].
  - rewrite IH. destruct (decide (path ∈ paths ∧ R !! path = None)) as [[Hin HR]|Hnot].
    + rewrite decide_True; [done|]. split; [by apply list_elem_of_further | done].
    + destruct (reconcilePath_state R formResult mode validation st p) as (_ & -> & _).
      destruct (decide (p = path)) as [->|Hne].
      * destruct (R !! path) as [e|] eqn:HR.
        -- rewrite decide_False; [done|]. by intros [_ ?].
        -- rewrite setFieldErrorBag_lookup, decide_True by done. simpl.
           rewrite decide_True; [done|]. split; [apply list_elem_of_here | done].
      * rewrite decide_False.
        -- destruct (R !! p); [done|].
           by rewrite setFieldErrorBag_lookup, decide_False.
        -- intros [[?|?]%elem_of_cons HR]; [by subst|]. by apply Hnot.
Qed.

Lemma reconcile_fold_fieldsByPath R formResult mode paths acc :
  fieldsByPath (foldl (reconcilePath R formResult mode) acc paths).2
  = fieldsByPath acc.2.
Proof.
  revert acc. induction paths as [|p paths IH]; intros [validation st];
    cbn [foldl]; [done|].
  rewrite IH. apply reconcilePath_state.
Qed.

(** A projection of the field objects that neither [setValid] nor
    [setStateErrors] changes is the same after the run. *)
Lemma reconcile_fold_agreeOn {A} (π : Field.t → A) R formResult mode paths acc :
  (∀ b x, π (setValid b x) = π x) →
  (mode = silent ∨ ∀ es x, π (setStateErrors es x) = π x) →
  agreeOn π (fieldObjects acc.2)
          (fieldObjects (foldl (reconcilePath R formResult mode) acc paths).2).
Proof.
  intros Hvalid Herrors.
  revert acc. induction paths as [|p paths IH]; intros [validation st];
    cbn [foldl]; [done|].
  eapply agreeOn_trans; [|apply IH]. cbn [snd].
  destruct (reconcilePath_state R formResult mode validation st p) as (_ & _ & ->).
  destruct (R !! p) as [e|]; [|done]. cbn zeta.
  destruct Herrors as [->|Herrors].
  - rewrite bool_decide_eq_true_2 by done. by apply applyFieldMutation_agreeOn.
  - repeat case_match; try by apply applyFieldMutation_agreeOn.
    eapply agreeOn_trans; by apply applyFieldMutation_agreeOn.
Qed.

Lemma elem_of_keysOf {A} (m : gmap string A) path :
  path ∈ keysOf m ↔ is_Some (m !! path).
Proof.
  unfold keysOf. rewrite list_elem_of_fmap. split.
  - intros ([k x] & -> & Hkx). apply elem_of_map_to_list in Hkx. by eexists.
  - intros [x Hx]. exists (path, x). split; [done|]. by apply elem_of_map_to_list.
Qed.

Lemma elem_of_reconcilePaths formResult st path :
  path ∈ reconcilePaths formResult st ↔
    is_Some (FormValidationResult.results formResult !! path)
    ∨ is_Some (fieldsByPath st !! path)
    ∨ is_Some (errorBag st !! path).
Proof.
  unfold reconcilePaths.
  by rewrite elem_of_remove_dups, !elem_of_app, !elem_of_keysOf.
Qed.

(** One step of the reduce gives the fields of its path the [valid] flag of
    the path and keeps the flag of every other field: a field with the flag
    of a path it is registered at has one afterwards too. *)
Lemma reconcilePath_valid R formResult mode validation st p f :
  ((∃ e, R !! p = Some e ∧ f ∈ members e)
   ∨ ∀ fo, fieldObjects st !! f = Some fo →
       ∃ q e, R !! q = Some e ∧ f ∈ members e
              ∧ FieldMeta.valid (Field.meta fo) = (length (messagesAt formResult q) =? 0)) →
  ∀ fo, fieldObjects (reconcilePath R formResult mode (validation, st) p).2 !! f = Some fo →
    ∃ q e, R !! q = Some e ∧ f ∈ members e
           ∧ FieldMeta.valid (Field.meta fo) = (length (messagesAt formResult q) =? 0).
Proof.
  intros Hcase fo.
  destruct (reconcilePath_state R formResult mode validation st p) as (_ & _ & ->).
  destruct (R !! p) as [e'|] eqn:Hp.
  - destruct (decide (f ∈ members e')) as [Hin'|Hnotin].
    + cbn zeta. intros Hfo. exists p, e'. split; [done|]. split; [done|].
      revert Hfo.
      assert (∀ x, setValid (length (messagesAt formResult p) =? 0)
                     (setValid (length (messagesAt formResult p) =? 0) x)
                   = setValid (length (messagesAt formResult p) =? 0) x) as Hidem1
        by done.
      assert (∀ x, setStateErrors (messagesAt formResult p)
                     (setStateErrors (messagesAt formResult p) x)
                   = setStateErrors (messagesAt formResult p) x) as Hidem2
        by done.
      repeat case_match;
        rewrite ?(applyFieldMutation_lookup (setStateErrors _)) by done;
        rewrite (applyFieldMutation_lookup (setValid _)) by done;
        destruct (fieldObjects st !! f); simpl; by intros [= <-].
    + destruct Hcase as [(e & [= <-] & Hin)|Hkeep]; [done|]. cbn zeta.
      repeat case_match; rewrite ?applyFieldMutation_lookup_ne by done; apply Hkeep.
  - destruct Hcase as [(e & [=] & _)|Hkeep]. apply Hkeep.
Qed.

Lemma reconcile_fold_valid R formResult mode paths acc f :
  ((∃ p e, p ∈ paths ∧ R !! p = Some e ∧ f ∈ members e)
   ∨ ∀ fo, fieldObjects acc.2 !! f = Some fo →
       ∃ q e, R !! q = Some e ∧ f ∈ members e
              ∧ FieldMeta.valid (Field.meta fo) = (length (messagesAt formResult q) =? 0)) →
  ∀ fo, fieldObjects (foldl (reconcilePath R formResult mode) acc paths).2 !! f = Some fo →
    ∃ q e, R !! q = Some e ∧ f ∈ members e
           ∧ FieldMeta.valid (Field.meta fo) = (length (messagesAt formResult q) =? 0).
Proof.
  revert acc. induction paths as [|p paths IH]; intros [validation st] Hcase;
    cbn [foldl].
  - destruct Hcase as [(p & e & []%elem_of_nil & _)|Hkeep]. apply Hkeep.
  - apply IH.
    destruct Hcase as [(q & e & [->|Hq]%elem_of_cons & He & Hin)|Hkeep].
    + right. apply reconcilePath_valid. left. by exists e.
    + left. by exists q, e.
    + right. apply reconcilePath_valid. by right.
Qed.

(** In [validated-only] mode the error state of a field none of whose
    entries has a validated member is the same after the run. *)
Lemma reconcile_fold_unvalidated R formResult paths acc objects f :
  agreeOn (FieldMeta.validated ∘ Field.meta) objects (fieldObjects acc.2) →
  map_Forall (λ _ e, f ∈ members e → wasValidated e objects = false) R →
  Field.errors
    <$> fieldObjects (foldl (reconcilePath R formResult validated_only) acc paths).2 !! f
  = Field.errors <$> fieldObjects acc.2 !! f.
Proof.
  intros Hagree Hnever.
  revert acc Hagree. induction paths as [|p paths IH]; intros [validation st] Hagree;
    cbn [foldl]; [done|].
  rewrite IH.
  - cbn [snd] in *.
    destruct (reconcilePath_state R formResult validated_only validation st p)
      as (_ & _ & ->).
    destruct (R !! p) as [e|] eqn:Hp; [|done]. cbn zeta.
    rewrite bool_decide_eq_false_2, bool_decide_eq_true_2 by done.
    destruct (decide (f ∈ members e)) as [Hin|Hnotin].
    + rewrite (wasValidated_agreeOn e (fieldObjects st)), (wasValidated_agreeOn e objects);
        [|done|by apply applyFieldMutation_agreeOn].
      rewrite (Hnever p e) by done. simpl.
      by apply applyFieldMutation_agreeOn.
    + case_match; by rewrite !applyFieldMutation_lookup_ne.
  - eapply agreeOn_trans; [exact Hagree|].
    apply (reconcile_fold_agreeOn _ R formResult validated_only [p] (validation, st));
      [done | by right].
Qed.

(** After the run every registered field has the [valid] flag of a path it
    is registered at. *)
Lemma reconcile_valid formResult mode st path e f :
  fieldsByPath st !! path = Some e → f ∈ members e →
  ∃ q e', fieldsByPath st !! q = Some e' ∧ f ∈ members e'
    ∧ FieldMeta.valid ∘ Field.meta <$> fieldObjects (reconcile formResult mode st).2 !! f
      = (λ _, length (messagesAt formResult q) =? 0) <$> fieldObjects st !! f.
Proof.
  intros Hpath Hin. unfold reconcile.
  pose proof (reconcile_fold_valid (fieldsByPath st) formResult mode
                (reconcilePaths formResult st)
                (FormValidationResult.mk (FormValidationResult.valid formResult) ∅ ∅ None, st)
                f) as Hvalid.
  pose proof (reconcile_fold_agreeOn (λ _, ()) (fieldsByPath st) formResult mode
                (reconcilePaths formResult st)
                (FormValidationResult.mk (FormValidationResult.valid formResult) ∅ ∅ None, st))
    as Hsame.
  specialize (Hsame (λ _ _, eq_refl) (or_intror (λ _ _, eq_refl)) f).
  cbn [snd] in *.
  destruct (fieldObjects (foldl _ _ _).2 !! f) as [fo|] eqn:Hfo;
    destruct (fieldObjects st !! f) as [fo0|]; try done.
  - destruct (Hvalid) with (fo := fo) as (q & e' & Hq & Hin' & Hflag); [|done|].
    + left. exists path, e. split; [|done].
      apply elem_of_reconcilePaths. right. left. by eexists.
    + exists q, e'. simpl. by rewrite Hflag.
  - by exists path, e.
Qed.

Lemma reconcile_valid_at formResult mode st path e f :
  fieldsByPath st !! path = Some e → f ∈ members e →
  registeredOnlyAt f path (fieldsByPath st) →
  FieldMeta.valid ∘ Field.meta <$> fieldObjects (reconcile formResult mode st).2 !! f
  = (λ _, length (messagesAt formResult path) =? 0) <$> fieldObjects st !! f.
Proof.
  intros Hpath Hin Honly.
  destruct (reconcile_valid formResult mode st path e f Hpath Hin)
    as (q & e' & Hq & Hin' & Hflag).
  by rewrite <-(Honly q e' Hq Hin').
Qed.

Lemma reconcile_errorBag formResult mode st path :
  errorBag (reconcile formResult mode st).2 !! path =
    if decide (path ∈ reconcilePaths formResult st ∧ fieldsByPath st !! path = None)
    then Some (messagesAt formResult path)
    else errorBag st !! path.
Proof. unfold reconcile. by rewrite reconcile_fold_errorBag. Qed.

(** C2, as the code has it: the run goes through the paths of the schema
    result, the paths of the registered fields and every path that has an
    entry in the error bag, an entry holding no message included.  Each of
    them gets a result made of the schema's messages for it.  For a path
    without a registered field these messages become the path's entry in the
    error bag; for a path with a field, whatever the mode, the [valid] flag
    of each of its fields is set to whether the messages are empty (a field
    object registered at several paths ends with the flag of one of them). *)
Theorem reconcile_covers_paths
    (formResult : FormValidationResult.t) (mode : SchemaValidationMode)
    (st : FormState) (path : string) :
  let out := reconcile formResult mode st in
  (is_Some (FormValidationResult.results out.1 !! path) ↔
     is_Some (FormValidationResult.results formResult !! path)
     ∨ is_Some (fieldsByPath st !! path)
     ∨ is_Some (errorBag st !! path))
  ∧ (is_Some (FormValidationResult.results out.1 !! path) →
       FormValidationResult.results out.1 !! path
       = Some (ValidationResult.mk (messagesAt formResult path)
                 (length (messagesAt formResult path) =? 0)))
  ∧ (is_Some (FormValidationResult.results out.1 !! path) →
     fieldsByPath st !! path = None →
       errorBag out.2 !! path = Some (messagesAt formResult path))
  ∧ (∀ e f, fieldsByPath st !! path = Some e → f ∈ members e →
       ∃ q e', fieldsByPath st !! q = Some e' ∧ f ∈ members e'
         ∧ FieldMeta.valid ∘ Field.meta <$> fieldObjects out.2 !! f
           = (λ _, length (messagesAt formResult q) =? 0) <$> fieldObjects st !! f)
  ∧ (∀ e f, fieldsByPath st !! path = Some e → f ∈ members e →
       registeredOnlyAt f path (fieldsByPath st) →
       FieldMeta.valid ∘ Field.meta <$> fieldObjects out.2 !! f
       = (λ _, length (messagesAt formResult path) =? 0) <$> fieldObjects st !! f).
Proof.
  intros out.
  assert (is_Some (FormValidationResult.results out.1 !! path)
          ↔ path ∈ reconcilePaths formResult st) as Hdom.
  { unfold out, reconcile. rewrite reconcile_fold_results. simpl.
    case_decide; [by split; eauto|]. rewrite lookup_empty. split; [intros []|]; done. }
  split; [by rewrite Hdom, elem_of_reconcilePaths|].
  split; [|split; [|split]].
  - intros Hin%Hdom. unfold out, reconcile.
    by rewrite reconcile_fold_results, decide_True.
  - intros Hin%Hdom Hnone. unfold out.
    by rewrite reconcile_errorBag, decide_True.
  - intros e f. apply reconcile_valid.
  - intros e f. apply reconcile_valid_at.
Qed.

Lemma reconcile_covers_paths_witness :
  let env := Build_Env None None None None (λ _, Rejected "unused") in
  let st := withFieldObjects
              {[ 1 := Field.mk "email" "text" (FieldMeta.mk false false true false)
                               [] VUndefined ]}
              (withFieldsByPath {[ "email" := Single 1 ]} (useForm env)) in
  let formResult :=
    FormValidationResult.mk false
      {[ "email" := ValidationResult.mk ["required"] false;
         "agree" := ValidationResult.mk ["must agree"] false ]}
      {[ "email" := "required"; "agree" := "must agree" ]} None in
  errorBag (reconcile formResult silent st).2 !! "agree" = Some ["must agree"]
  ∧ FieldMeta.valid ∘ Field.meta <$> fieldObjects (reconcile formResult silent st).2 !! 1
    = Some false.
Proof.
  intros env st formResult. split.
  - refine (proj1 (proj2 (proj2 (reconcile_covers_paths formResult silent st "agree")))
              _ eq_refl).
    vm_compute. by eexists.
  - refine (proj2 (proj2 (proj2 (proj2
              (reconcile_covers_paths formResult silent st "email"))))
              (Single 1) 1 eq_refl _ _).
    + apply list_elem_of_here.
    + apply (bool_decide_unpack _). vm_compute. exact I.
Defined.

(** C2, as stated, fails: a path whose error-bag entry holds no message is
    gone through (it gets a result) although it is in none of the three sets
    of the claim. *)
Lemma reconcile_visits_empty_entry :
  let env := Build_Env None None None None (λ _, Rejected "unused") in
  let st := setFieldError "stale" (MArray []) (useForm env) in
  let formResult := FormValidationResult.mk true ∅ ∅ None in
  "stale" ∈ dom (FormValidationResult.results (reconcile formResult silent st).1)
  ∧ "stale" ∉ pathsWithNonEmptyErrors formResult st.
Proof.
  intros env st formResult. split.
  - apply (bool_decide_unpack _). vm_compute. exact I.
  - apply (bool_decide_unpack _). vm_compute. exact I.
Qed.

Lemma validateSchema_state run mode st :
  (validateSchema run mode st).2 =
    match run (formValues st) with
    | Resolved formResult => (reconcile formResult mode st).2
    | Rejected _ => st
    end.
Proof.
  unfold validateSchema. destruct (run (formValues st)) as [formResult|err]; [|done].
  by destruct (reconcile formResult mode st).
Qed.

(** C3: a schema-validation run in [silent] mode changes neither the error
    state nor the [validated] flag of any field object, and leaves the
    error-bag entry of every registered path as it is, while it sets the
    [valid] flag of the fields of every registered path to whether the schema
    has no message for the path (for a field object registered at several
    paths: for one of them).  A run in [validated-only] mode leaves the error
    state of a field alone when no entry holding it has a validated member,
    and leaves the error-bag entry of every registered path as it is too. *)
Theorem silent_run_keeps_error_state
    (run : gmap string value → Promise FormValidationResult.t) (st : FormState) :
  let quiet := (validateSchema run silent st).2 in
  let live := (validateSchema run validated_only st).2 in
  agreeOn Field.errors (fieldObjects st) (fieldObjects quiet)
  ∧ agreeOn (FieldMeta.validated ∘ Field.meta) (fieldObjects st) (fieldObjects quiet)
  ∧ (∀ path, is_Some (fieldsByPath st !! path) →
       errorBag quiet !! path = errorBag st !! path)
  ∧ (∀ formResult path e f,
       run (formValues st) = Resolved formResult →
       fieldsByPath st !! path = Some e → f ∈ members e →
       ∃ q e', fieldsByPath st !! q = Some e' ∧ f ∈ members e'
         ∧ FieldMeta.valid ∘ Field.meta <$> fieldObjects quiet !! f
           = (λ _, length (messagesAt formResult q) =? 0) <$> fieldObjects st !! f)
  ∧ (∀ formResult path e f,
       run (formValues st) = Resolved formResult →
       fieldsByPath st !! path = Some e → f ∈ members e →
       registeredOnlyAt f path (fieldsByPath st) →
       FieldMeta.valid ∘ Field.meta <$> fieldObjects quiet !! f
       = (λ _, length (messagesAt formResult path) =? 0) <$> fieldObjects st !! f)
  ∧ (∀ f, neverValidated f st →
       Field.errors <$> fieldObjects live !! f = Field.errors <$> fieldObjects st !! f)
  ∧ (∀ path, is_Some (fieldsByPath st !! path) →
       errorBag live !! path = errorBag st !! path).
Proof.
  intros quiet live. unfold quiet, live. rewrite !validateSchema_state.
  assert (∀ formResult mode path, is_Some (fieldsByPath st !! path) →
            errorBag (reconcile formResult mode st).2 !! path = errorBag st !! path)
    as Hbag.
  { intros formResult mode path [e He]. rewrite reconcile_errorBag, decide_False; [done|].
    intros [_ Hnone]. congruence. }
  destruct (run (formValues st)) as [formResult|err].
  - split; [|split; [|split; [|split; [|split; [|split]]]]].
    + unfold reconcile.
      apply (reconcile_fold_agreeOn Field.errors); [done | by left].
    + unfold reconcile.
      apply (reconcile_fold_agreeOn (FieldMeta.validated ∘ Field.meta)); [done | by left].
    + apply Hbag.
    + intros ? path e f [= <-]. apply reconcile_valid.
    + intros ? path e f [= <-]. apply reconcile_valid_at.
    + intros f Hnever. unfold reconcile.
      by apply (reconcile_fold_unvalidated (fieldsByPath st) formResult
                  (reconcilePaths formResult st)
                  (FormValidationResult.mk (FormValidationResult.valid formResult) ∅ ∅ None, st)
                  (fieldObjects st)).
    + apply Hbag.
  - repeat split; done.
Qed.

Lemma silent_run_keeps_error_state_witness :
  let env := Build_Env None None None None (λ _, Rejected "unused") in
  let st := withFieldObjects
              {[ 1 := Field.mk "email" "text" (FieldMeta.mk false false true false)
                               [] VUndefined ]}
              (withFieldsByPath {[ "email" := Single 1 ]} (useForm env)) in
  let formResult :=
    FormValidationResult.mk false
      {[ "email" := ValidationResult.mk ["required"] false ]}
      {[ "email" := "required" ]} None in
  let run := λ _ : gmap string value, Resolved formResult in
  errorBag (validateSchema run silent st).2 !! "email" = None
  ∧ FieldMeta.valid ∘ Field.meta <$> fieldObjects (validateSchema run silent st).2 !! 1
    = Some false
  ∧ Field.errors <$> fieldObjects (validateSchema run validated_only st).2 !! 1
    = Some [].
Proof.
  intros env st formResult run.
  destruct (silent_run_keeps_error_state run st)
    as (_ & _ & H1 & _ & H2 & H3 & _).
  split; [|split].
  - rewrite H1; [reflexivity | by eexists].
  - rewrite (H2 formResult "email" (Single 1) 1);
      [reflexivity | reflexivity | reflexivity | apply list_elem_of_here |].
    apply (bool_decide_unpack _). vm_compute. exact I.
  - rewrite H3; [reflexivity|].
    apply (bool_decide_unpack _). vm_compute. exact I.
Defined.
